(** * Dynamic query construction of the jobly backend

    A shallow embedding of [helpers/sql.js] (the partial-update builder) and
    of the [buildFindAllSQLWithQueryString] methods of [models/job.js] and
    [models/company.js] (the filter query builders), with the properties of
    the statement text and of the bind-value list that they return, and of
    the [update] methods of the two models up to their call of the database. *)

From Stdlib Require Import List String Ascii Bool Arith ZArith Lia.
From Stdlib Require Import Numbers.DecimalString Numbers.DecimalNat Numbers.DecimalFacts.
Import ListNotations.
Local Open Scope list_scope.
Local Open Scope string_scope.

(** ** JavaScript data *)

(** The values a request can carry.  The builders never inspect them. *)
Inductive JsValue : Type :=
  | JsString (s : string)
  | JsNumber (z : Z)
  | JsBool (b : bool)
  | JsNull.

(** A plain object: its own enumerable string-keyed properties, in the order
    in which [Object.keys], [Object.values] and [for ... in] enumerate them. *)
Definition JsObject (V : Type) : Type := list (string * V).

Definition keys {V} (o : JsObject V) : list string := map fst o.
Definition vals {V} (o : JsObject V) : list V := map snd o.

(** [o[k]]: the property [k] of [o], [None] standing for [undefined]. *)
Fixpoint prop {V} (o : JsObject V) (k : string) : option V :=
  match o with
  | [] => None
  | (k', v) :: o' => if String.eqb k' k then Some v else prop o' k
  end.

(** The text a template literal prints for a built-in function (Node). *)
Definition nativeFunction (name : string) : string :=
  "function " ++ name ++ "() { [native code] }".

(** The members that every plain object inherits from [Object.prototype],
    each with the text a template literal prints for it: the methods, the
    constructor [Object], and [__proto__], which is the prototype itself and
    prints as an object.  All of them are truthy. *)
Definition inherited (k : string) : option string :=
  if k =? "constructor" then Some (nativeFunction "Object")
  else if k =? "__proto__" then Some "[object Object]"
  else if existsb (String.eqb k)
            ["__defineGetter__"; "__defineSetter__"; "hasOwnProperty";
             "__lookupGetter__"; "__lookupSetter__"; "isPrototypeOf";
             "propertyIsEnumerable"; "toString"; "valueOf"; "toLocaleString"]
       then Some (nativeFunction k)
  else None.

(** [o[k]] on a plain object of strings, as text: the own property [k] if
    there is one, else the inherited member of that name, else [undefined]. *)
Definition member (o : JsObject string) (k : string) : option string :=
  match prop o k with
  | Some e => Some e
  | None => inherited k
  end.

(** The errors the code can raise: the [BadRequestError] of
    [expressError.js] and the runtime's [TypeError]. *)
Inductive JsError : Type :=
  | BadRequestError (message : string)
  | TypeError (message : string).

Definition Result (A : Type) : Type := (JsError + A)%type.
Definition throw {A} (e : JsError) : Result A := inl e.
Definition ret {A} (a : A) : Result A := inr a.
Definition bind {A B} (m : Result A) (f : A -> Result B) : Result B :=
  match m with
  | inl e => inl e
  | inr a => f a
  end.

Notation "x <- m ;; k" := (bind m (fun x => k))
  (at level 61, m at next level, right associativity).

(** ** Text *)

Definition dquote : string := String (ascii_of_nat 34) "".
Definition newline : string := String (ascii_of_nat 10) "".

(** [`${n}`] for a counter [n]: the decimal numeral, without leading zero
    (what JavaScript prints for the integers below 10^21). *)
Definition decimal (n : nat) : string := NilEmpty.string_of_uint (Nat.to_uint n).

(** [Array.prototype.map] with the index as second argument. *)
Fixpoint mapi_from {A B} (f : A -> nat -> B) (idx : nat) (l : list A) : list B :=
  match l with
  | [] => []
  | a :: l' => f a idx :: mapi_from f (S idx) l'
  end.
Definition mapi {A B} (f : A -> nat -> B) (l : list A) : list B := mapi_from f 0 l.

(** [Array.prototype.join]. *)
Definition join (sep : string) (l : list string) : string := String.concat sep l.

(** [a || b] on strings where [a] may be [undefined]: the empty string and
    [undefined] are falsy. *)
Definition or_else (a : option string) (b : string) : string :=
  match a with
  | Some (String c s) => String c s
  | _ => b
  end.

(** ** [helpers/sql.js] *)

Module Sql.

Record PartialUpdate : Type := mkPartialUpdate {
  setCols : string;
  values : list JsValue
}.

(** [jsToSql[colName]]: an own entry of the table or a member it inherits;
    reading a property of [undefined] raises. *)
Definition lookupColumn (jsToSql : option (JsObject string)) (colName : string)
  : Result (option string) :=
  match jsToSql with
  | None => throw (TypeError ("Cannot read properties of undefined (reading '"
                              ++ colName ++ "')"))
  | Some t => ret (member t colName)
  end.

(** [`"${jsToSql[colName] || colName}"=$${idx + 1}`] *)
Definition setClause (jsToSql : option (JsObject string)) (colName : string) (idx : nat)
  : Result string :=
  entry <- lookupColumn jsToSql colName ;;
  ret (dquote ++ or_else entry colName ++ dquote ++ "=$" ++ decimal (idx + 1)).

(** A callback that may raise, run over the elements in order. *)
Fixpoint sequence {A} (l : list (Result A)) : Result (list A) :=
  match l with
  | [] => ret []
  | m :: l' => a <- m ;; r <- sequence l' ;; ret (a :: r)
  end.

Definition sqlForPartialUpdate (dataToUpdate : JsObject JsValue)
    (jsToSql : option (JsObject string)) : Result PartialUpdate :=
  let keys := keys dataToUpdate in
  if Nat.eqb (List.length keys) 0 then throw (BadRequestError "No data")
  else
    cols <- sequence (mapi (setClause jsToSql) keys) ;;
    ret {| setCols := join ", " cols; values := vals dataToUpdate |}.

End Sql.

(** ** The filter query builders *)

(** What [buildFindAllSQLWithQueryString] returns. *)
Record Query : Type := mkQuery {
  sql : string;
  values : list JsValue
}.

(** The four variables the [for ... in] loop of either builder updates. *)
Module Loop.
Record t : Type := mk {
  sql : string;
  startedSql : bool;
  paramCount : nat;
  values : list JsValue
}.
End Loop.

(** [sql = startedSql ? sql + " AND " : sql + " WHERE "] *)
Definition connect (st : Loop.t) : string :=
  if Loop.startedSql st then Loop.sql st ++ " AND " else Loop.sql st ++ " WHERE ".

(** The tail of an iteration that binds a value:
    [startedSql = true; paramCount++; values.push(queryString[key])], where
    [queryString[key]] is the value of the property being enumerated. *)
Definition pushValue (sql : string) (st : Loop.t) (v : JsValue) : Loop.t :=
  {| Loop.sql := sql;
     Loop.startedSql := true;
     Loop.paramCount := Loop.paramCount st + 1;
     Loop.values := Loop.values st ++ [v] |}.

(** [models/job.js] *)
Module Job.

Definition baseSql : string :=
  "SELECT id," ++ newline ++
  "      title, " ++ newline ++
  "      salary, " ++ newline ++
  "      equity," ++ newline ++
  "      company_handle AS " ++ dquote ++ "companyHandle" ++ dquote ++ newline ++
  "      FROM jobs".

Definition init : Loop.t :=
  {| Loop.sql := baseSql; Loop.startedSql := false;
     Loop.paramCount := 1; Loop.values := [] |}.

(** One iteration of the loop, for the property [key] with value [v]. *)
Definition iteration (st : Loop.t) (kv : string * JsValue) : Loop.t :=
  let (key, v) := kv in
  let sql := connect st in
  if key =? "title" then
    pushValue (sql ++ " name ILIKE '%' || $" ++ decimal (Loop.paramCount st) ++ " || '%'") st v
  else if key =? "minSalary" then
    pushValue (sql ++ " salary >= $" ++ decimal (Loop.paramCount st)) st v
  else if key =? "hasEquity" then
    (* [continue]: no value is added and [paramCount] is not incremented *)
    {| Loop.sql := sql ++ " equity > 0";
       Loop.startedSql := true;
       Loop.paramCount := Loop.paramCount st;
       Loop.values := Loop.values st |}
  else
    pushValue sql st v.

Definition loop (queryString : JsObject JsValue) (st : Loop.t) : Loop.t :=
  fold_left iteration queryString st.

Definition buildFindAllSQLWithQueryString (queryString : JsObject JsValue) : Query :=
  let st := loop queryString init in
  {| sql := Loop.sql st ++ " ORDER BY title"; values := Loop.values st |}.

(** The filter keys the builder has a branch for. *)
Definition vocabulary : list string := ["title"; "minSalary"; "hasEquity"].

(** In [update]: [const idIdx = "$" + (values.length + 1)], the parameter of
    the row identifier, after those of the assignments. *)
Definition idIdx (values : list JsValue) : string :=
  "$" ++ decimal (List.length values + 1).

End Job.

(** [models/company.js] *)
Module Company.

Definition baseSql : string :=
  "SELECT handle," ++ newline ++
  "      name, " ++ newline ++
  "      description, " ++ newline ++
  "      num_employees AS " ++ dquote ++ "numEmployees" ++ dquote ++ "," ++ newline ++
  "      logo_url AS " ++ dquote ++ "logoUrl" ++ dquote ++ newline ++
  "      FROM companies".

Definition init : Loop.t :=
  {| Loop.sql := baseSql; Loop.startedSql := false;
     Loop.paramCount := 1; Loop.values := [] |}.

Definition iteration (st : Loop.t) (kv : string * JsValue) : Loop.t :=
  let (key, v) := kv in
  let sql := connect st in
  if key =? "name" then
    pushValue (sql ++ " name ILIKE '%' || $" ++ decimal (Loop.paramCount st) ++ " || '%'") st v
  else if key =? "minEmployees" then
    pushValue (sql ++ " num_employees >= $" ++ decimal (Loop.paramCount st)) st v
  else if key =? "maxEmployees" then
    pushValue (sql ++ " num_employees <= $" ++ decimal (Loop.paramCount st)) st v
  else
    pushValue sql st v.

Definition loop (queryString : JsObject JsValue) (st : Loop.t) : Loop.t :=
  fold_left iteration queryString st.

Definition buildFindAllSQLWithQueryString (queryString : JsObject JsValue) : Query :=
  let st := loop queryString init in
  {| sql := Loop.sql st ++ " ORDER BY name"; values := Loop.values st |}.

Definition vocabulary : list string := ["name"; "minEmployees"; "maxEmployees"].

(** In [update]: [const handleVarIdx = "$" + (values.length + 1)]. *)
Definition handleVarIdx (values : list JsValue) : string :=
  "$" ++ decimal (List.length values + 1).

End Company.

(** ** Reading a statement *)

Definition is_digit (c : ascii) : bool :=
  let n := nat_of_ascii c in (48 <=? n)%nat && (n <=? 57)%nat.

(** The longest prefix of decimal digits. *)
Fixpoint digits_prefix (s : string) : string :=
  match s with
  | String c s' => if is_digit c then String c (digits_prefix s') else ""
  | "" => ""
  end.

(** The number written by a non-empty run of digits. *)
Definition number_of (ds : string) : option nat :=
  match ds with
  | "" => None
  | _ => option_map Nat.of_uint (NilEmpty.uint_of_string ds)
  end.

(** The positional parameters [$n] of a statement, in order of occurrence. *)
Fixpoint placeholders (s : string) : list nat :=
  match s with
  | "" => []
  | String c s' =>
      if Ascii.eqb c "$" then
        match number_of (digits_prefix s') with
        | Some n => n :: placeholders s'
        | None => placeholders s'
        end
      else placeholders s'
  end.

(** [contains p s]: [p] occurs in [s]. *)
Fixpoint contains (p s : string) : bool :=
  String.prefix p s ||
  match s with
  | "" => false
  | String _ s' => contains p s'
  end.

(** [s] is empty or begins with a character that is not a digit. *)
Definition starts_nondigit (s : string) : bool :=
  match s with
  | "" => true
  | String c _ => negb (is_digit c)
  end.

(** Every character of [s] is a digit. *)
Fixpoint all_digits (s : string) : bool :=
  match s with
  | "" => true
  | String c s' => is_digit c && all_digits s'
  end.

(** ** The two resources with a filter query builder *)

Inductive Resource : Type := Jobs | Companies.

Definition buildFilterQuery (r : Resource) : JsObject JsValue -> Query :=
  match r with
  | Jobs => Job.buildFindAllSQLWithQueryString
  | Companies => Company.buildFindAllSQLWithQueryString
  end.

Definition vocabulary (r : Resource) : list string :=
  match r with
  | Jobs => Job.vocabulary
  | Companies => Company.vocabulary
  end.

Definition baseSql (r : Resource) : string :=
  match r with
  | Jobs => Job.baseSql
  | Companies => Company.baseSql
  end.

(** The text either builder appends after the loop. *)
Definition orderBy (r : Resource) : string :=
  match r with
  | Jobs => " ORDER BY title"
  | Companies => " ORDER BY name"
  end.

(** All keys of the mapping are recognized filter keys of the resource. *)
Definition recognized (r : Resource) (q : JsObject JsValue) : Prop :=
  Forall (fun k => In k (vocabulary r)) (keys q).

(** The job filter of the model's test with three keys. *)
Definition scenarioD : JsObject JsValue :=
  [("title", JsString "test"); ("minSalary", JsNumber 75000); ("hasEquity", JsBool true)].

(** ** Predicates on the loop state *)

(** The statement built so far carries the parameters [$1 .. $n] in order,
    [n] being the number of values pushed, and [paramCount] is [n + 1]. *)
Definition in_step (st : Loop.t) : Prop :=
  placeholders (Loop.sql st) = seq 1 (List.length (Loop.values st)) /\
  Loop.paramCount st = List.length (Loop.values st) + 1.

(** Two loop states that agree on everything but the values pushed. *)
Definition same_text (a b : Loop.t) : Prop :=
  Loop.sql a = Loop.sql b /\
  Loop.startedSql a = Loop.startedSql b /\
  Loop.paramCount a = Loop.paramCount b.

(** The properties of a job filter that bind a value: all but [hasEquity]. *)
Definition binds_value (kv : string * JsValue) : bool := negb (fst kv =? "hasEquity").

(** ** Predicates on the partial update *)

(** The statement text of a result, when there is one. *)
Definition setColsOf (r : Result Sql.PartialUpdate) : Result string :=
  p <- r ;; ret (Sql.setCols p).

(** The assignment of parameter [idx + 1] to the column [col]. *)
Definition assignment (col : string) (idx : nat) : string :=
  dquote ++ col ++ dquote ++ "=$" ++ decimal (idx + 1).

(** The column the code writes for [colName]: [jsToSql[colName] || colName]. *)
Definition column (t : JsObject string) (colName : string) : string :=
  or_else (member t colName) colName.

(** How the column of a key relates to the entry of the translation table:
    [rule entry key col]. *)
Definition ColumnRule : Type := option string -> string -> string -> Prop.

(** An entry, whatever it is, becomes the column; without entry the key. *)
Definition entry_wins : ColumnRule := fun entry key col =>
  (forall e, entry = Some e -> col = e) /\ (entry = None -> col = key).

(** A non-empty entry becomes the column; with the empty string as entry the
    key; without entry the key, when the key is not the name of an inherited
    member. *)
Definition nonempty_entry_wins : ColumnRule := fun entry key col =>
  (forall e, entry = Some e -> e <> "" -> col = e) /\
  (entry = Some "" -> col = key) /\
  (entry = None -> inherited key = None -> col = key).

(** The builder succeeds on [d] with the table [t], and its text is made of
    one assignment per key of [d], in order, on columns that follow [rule]. *)
Definition translation_precedence (rule : ColumnRule)
    (d : JsObject JsValue) (t : JsObject string) : Prop :=
  exists p cols,
    Sql.sqlForPartialUpdate d (Some t) = inr p /\
    Sql.setCols p = join ", " (mapi assignment cols) /\
    List.length cols = List.length d /\
    forall i k, nth_error (keys d) i = Some k ->
      exists col, nth_error cols i = Some col /\ rule (prop t k) k col.

(** ** The check of the filter keys *)

Module Route.

(** Modelled from the spec: the error of the membership check on the filter
    query path.  Spec section 7: UnrecognizedFilterKeyError (client-error
    class), raised when a filter mapping contains a key outside the
    resource's vocabulary; carries the offending key name.  The route
    handlers that make the check (the callers of [findAll]) are not among the
    source files, only their tests, which expect the message
    "Invalid query string parameter: fakeQueryField". *)
Inductive FilterError : Type :=
  | UnrecognizedFilterKeyError (key : string).

Definition is_recognized (r : Resource) (k : string) : bool :=
  existsb (String.eqb k) (vocabulary r).

(** Modelled from the spec: the membership check itself, missing with the
    route handlers.  Spec section 4.2: every key in filters must be a member
    of the resource's recognized vocabulary; the check happens on this path
    with an explicit, named unrecognized key in the error.  The keys are
    examined in the order of the mapping. *)
Definition checkFilterKeys (r : Resource) (q : JsObject JsValue) : option FilterError :=
  match find (fun k => negb (is_recognized r k)) (keys q) with
  | Some k => Some (UnrecognizedFilterKeyError k)
  | None => None
  end.

(** Modelled from the spec: the filter query path, the check and then the
    builder of [models/job.js] or [models/company.js]. *)
Definition filterQuery (r : Resource) (q : JsObject JsValue) : FilterError + Query :=
  match checkFilterKeys r q with
  | Some e => inl e
  | None => inr (buildFilterQuery r q)
  end.

End Route.

(** ** [update] of the models *)

(** [n] spaces, the indentation inside a template literal. *)
Fixpoint indent (n : nat) : string :=
  match n with
  | 0 => ""
  | S m => String " "%char (indent m)
  end.

(** [Job.update] up to its call of [db.query]: the statement and the
    parameters [[...values, id]] it passes.  The table of translations is
    the empty object. *)
Module JobUpdate.

Definition querySql (setCols idIdx : string) : string :=
  "UPDATE jobs " ++ newline ++
  indent 22 ++ "SET " ++ setCols ++ " " ++ newline ++
  indent 22 ++ "WHERE id = " ++ idIdx ++ " " ++ newline ++
  indent 22 ++ "RETURNING id, " ++ newline ++
  indent 32 ++ "title, " ++ newline ++
  indent 32 ++ "salary, " ++ newline ++
  indent 32 ++ "equity," ++ newline ++
  indent 32 ++ "company_handle AS " ++ dquote ++ "companyHandle" ++ dquote.

Definition update (id : JsValue) (data : JsObject JsValue) : Result Query :=
  p <- Sql.sqlForPartialUpdate data (Some []) ;;
  let idIdx := Job.idIdx (Sql.values p) in
  ret {| sql := querySql (Sql.setCols p) idIdx;
         values := (Sql.values p ++ [id])%list |}.

End JobUpdate.

(** [Company.update] up to its call of [db.query]. *)
Module CompanyUpdate.

Definition jsToSql : JsObject string :=
  [("numEmployees", "num_employees"); ("logoUrl", "logo_url")].

Definition querySql (setCols handleVarIdx : string) : string :=
  "UPDATE companies " ++ newline ++
  indent 22 ++ "SET " ++ setCols ++ " " ++ newline ++
  indent 22 ++ "WHERE handle = " ++ handleVarIdx ++ " " ++ newline ++
  indent 22 ++ "RETURNING handle, " ++ newline ++
  indent 32 ++ "name, " ++ newline ++
  indent 32 ++ "description, " ++ newline ++
  indent 32 ++ "num_employees AS " ++ dquote ++ "numEmployees" ++ dquote ++ ", " ++ newline ++
  indent 32 ++ "logo_url AS " ++ dquote ++ "logoUrl" ++ dquote.

Definition update (handle : JsValue) (data : JsObject JsValue) : Result Query :=
  p <- Sql.sqlForPartialUpdate data (Some jsToSql) ;;
  let handleVarIdx := Company.handleVarIdx (Sql.values p) in
  ret {| sql := querySql (Sql.setCols p) handleVarIdx;
         values := (Sql.values p ++ [handle])%list |}.

(** The fields the documentation of [update] lists: "Data can include". *)
Definition updatable : list string := ["name"; "description"; "numEmployees"; "logoUrl"].

(** The columns of the companies relation that an update may set. *)
Definition columns : list string := ["name"; "description"; "num_employees"; "logo_url"].

End CompanyUpdate.

(** ** More predicates on statements *)

(** No character of [s] is the parameter sign. *)
Fixpoint no_dollar (s : string) : bool :=
  match s with
  | "" => true
  | String c s' => negb (Ascii.eqb c "$") && no_dollar s'
  end.

(** The value bound to the parameter [$p]: the element [p - 1] of the
    parameter array. *)
Definition resolve (vs : list JsValue) (p : nat) : option JsValue :=
  match p with
  | 0 => None
  | S i => nth_error vs i
  end.

(** The filter keys whose branch writes a parameter. *)
Definition parameterized (r : Resource) : list string :=
  match r with
  | Jobs => ["title"; "minSalary"]
  | Companies => ["name"; "minEmployees"; "maxEmployees"]
  end.

Definition is_param (r : Resource) (kv : string * JsValue) : bool :=
  existsb (String.eqb (fst kv)) (parameterized r).

(** The text an iteration appends after the connective, for the key [key]
    when the counter is [n]; nothing for a key without branch. *)
Definition predicate (r : Resource) (key : string) (n : nat) : string :=
  match r with
  | Jobs =>
      if key =? "title" then " name ILIKE '%' || $" ++ decimal n ++ " || '%'"
      else if key =? "minSalary" then " salary >= $" ++ decimal n
      else if key =? "hasEquity" then " equity > 0"
      else ""
  | Companies =>
      if key =? "name" then " name ILIKE '%' || $" ++ decimal n ++ " || '%'"
      else if key =? "minEmployees" then " num_employees >= $" ++ decimal n
      else if key =? "maxEmployees" then " num_employees <= $" ++ decimal n
      else ""
  end.

(** The counter after the iteration for [key]. *)
Definition advance (r : Resource) (key : string) (n : nat) : nat :=
  match r with
  | Jobs => if key =? "hasEquity" then n else n + 1
  | Companies => n + 1
  end.

(** The predicates of a mapping, in order, the counter starting at [n]. *)
Fixpoint predicates (r : Resource) (q : JsObject JsValue) (n : nat) : list string :=
  match q with
  | [] => []
  | (key, _) :: q' => predicate r key n :: predicates r q' (advance r key n)
  end.

Definition iteration (r : Resource) : Loop.t -> string * JsValue -> Loop.t :=
  match r with
  | Jobs => Job.iteration
  | Companies => Company.iteration
  end.

Definition init (r : Resource) : Loop.t :=
  match r with
  | Jobs => Job.init
  | Companies => Company.init
  end.

(** The elements after the first, each behind the separator. *)
Definition behind (sep : string) (l : list string) : string :=
  fold_right (fun x acc => sep ++ x ++ acc) "" l.

(** Two keys that a builder cannot tell apart: the same key, or two keys
    outside its vocabulary. *)
Definition same_class (r : Resource) (k1 k2 : string) : Prop :=
  k1 = k2 \/ (~ In k1 (vocabulary r) /\ ~ In k2 (vocabulary r)).

(** The properties of a filter whose iteration pushes a value. *)
Definition binds (r : Resource) (kv : string * JsValue) : bool :=
  match r with
  | Jobs => binds_value kv
  | Companies => true
  end.

(** A template that surrounds the assignments and the last parameter with
    fixed text free of parameters. *)
Definition fixed_around (querySql : string -> string -> string) : Prop :=
  exists pre mid post,
    no_dollar pre = true /\ no_dollar mid = true /\
    starts_nondigit (mid ++ "$") = true /\
    no_dollar post = true /\ starts_nondigit post = true /\
    forall s i, querySql s i = pre ++ s ++ mid ++ i ++ post.

(** A key that closes the quoted column name and brings a parameter of its
    own: x, a double quote, =$2, a comma, a double quote, y. *)
Definition hostileKey : string := "x" ++ dquote ++ "=$2, " ++ dquote ++ "y".

(** The builder succeeds on [d] with the table [t]; its values are those of
    [d] in order; its text is one clause per property joined with ", ", the
    clause at position [i] (from 0) on parameter [i + 1] with the value of
    its property at position [i] of the values; the parameters that occur
    in the text are [1 .. n], so that [n + 1], the index the callers take
    next, is free. *)
Definition values_follow_placeholders (d : JsObject JsValue) (t : JsObject string) : Prop :=
  exists p cols,
    Sql.sqlForPartialUpdate d (Some t) = inr p /\
    Sql.setCols p = join ", " cols /\
    List.length cols = List.length d /\
    List.length (Sql.values p) = List.length d /\
    (forall i k v, nth_error d i = Some (k, v) ->
       nth_error (Sql.values p) i = Some v /\
       nth_error cols i
       = Some (dquote ++ column t k ++ dquote ++ "=$" ++ decimal (i + 1))) /\
    placeholders (Sql.setCols p) = seq 1 (List.length d) /\
    ~ In (List.length (Sql.values p) + 1) (placeholders (Sql.setCols p)) /\
    Job.idIdx (Sql.values p) = "$" ++ decimal (List.length d + 1) /\
    Company.handleVarIdx (Sql.values p) = "$" ++ decimal (List.length d + 1).

(** * Properties *)

Ltac recognized_keys := repeat constructor; simpl; auto.

Example sqlForPartialUpdate_single :
  Sql.sqlForPartialUpdate [("firstName", JsString "Aliya")] (Some [("firstName", "first_name")])
  = inr {| Sql.setCols := dquote ++ "first_name" ++ dquote ++ "=$1";
           Sql.values := [JsString "Aliya"] |}.
Proof. reflexivity. Qed.

(** ** Facts about text *)

Section Text.

Lemma append_nil_r (a : string) : a ++ "" = a.
Proof. induction a as [|x a IH]; simpl; [reflexivity | now rewrite IH]. Qed.

Lemma is_digit_not_dollar c : is_digit c = true -> Ascii.eqb c "$" = false.
Proof.
  destruct (Ascii.eqb_spec c "$") as [->|]; [discriminate | reflexivity].
Qed.

Lemma digits_prefix_app (a b : string) :
  starts_nondigit b = true -> digits_prefix (a ++ b) = digits_prefix a.
Proof.
  intros Hb. induction a as [|c a IH]; simpl.
  - destruct b as [|c b]; simpl in *; [reflexivity|].
    now destruct (is_digit c).
  - destruct (is_digit c); [now rewrite IH | reflexivity].
Qed.

Lemma digits_prefix_all (a : string) : all_digits a = true -> digits_prefix a = a.
Proof.
  induction a as [|c a IH]; simpl; [reflexivity|].
  destruct (is_digit c); simpl; [intros H; now rewrite IH | discriminate].
Qed.

Lemma placeholders_app (a b : string) :
  starts_nondigit b = true ->
  placeholders (a ++ b) = (placeholders a ++ placeholders b)%list.
Proof.
  intros Hb. induction a as [|c a IH]; simpl; [reflexivity|].
  rewrite digits_prefix_app by assumption. rewrite IH.
  destruct (Ascii.eqb c "$"); [|reflexivity].
  now destruct (number_of (digits_prefix a)).
Qed.

Lemma placeholders_all_digits (a : string) : all_digits a = true -> placeholders a = [].
Proof.
  induction a as [|c a IH]; simpl; [reflexivity|].
  destruct (is_digit c) eqn:E; simpl; [|discriminate].
  intros H. rewrite (is_digit_not_dollar _ E). now apply IH.
Qed.

Lemma all_digits_string_of_uint d : all_digits (NilEmpty.string_of_uint d) = true.
Proof. induction d; simpl; auto. Qed.

Lemma to_uint_nonnil n : Nat.to_uint n <> Decimal.Nil.
Proof.
  rewrite <- (DecimalNat.Unsigned.of_to n) at 1.
  rewrite DecimalNat.Unsigned.to_of. apply unorm_nonnil.
Qed.

Lemma all_digits_decimal n : all_digits (decimal n) = true.
Proof. apply all_digits_string_of_uint. Qed.

Lemma number_of_decimal n : number_of (decimal n) = Some n.
Proof.
  unfold number_of, decimal.
  pose proof (to_uint_nonnil n) as Hn.
  rewrite NilEmpty.usu. simpl. rewrite DecimalNat.Unsigned.of_to.
  destruct (Nat.to_uint n); simpl; congruence.
Qed.

(** A [$] followed by the decimal numeral of [n] is read as parameter [n]. *)
Lemma placeholders_param (n : nat) (r : string) :
  starts_nondigit r = true ->
  placeholders ("$" ++ decimal n ++ r) = n :: placeholders r.
Proof.
  intros Hr. simpl.
  rewrite digits_prefix_app by assumption.
  rewrite digits_prefix_all by apply all_digits_decimal.
  rewrite number_of_decimal.
  rewrite placeholders_app by assumption.
  now rewrite placeholders_all_digits by apply all_digits_decimal.
Qed.

End Text.

(** ** The loop invariant: parameters and bind values in step *)

Section Placeholders.

Lemma placeholders_connect st : placeholders (connect st) = placeholders (Loop.sql st).
Proof.
  unfold connect.
  destruct (Loop.startedSql st); rewrite placeholders_app by reflexivity;
    simpl; now rewrite List.app_nil_r.
Qed.

Lemma placeholders_clause (s pre post : string) (n : nat) :
  starts_nondigit (pre ++ "$") = true -> placeholders pre = [] ->
  starts_nondigit post = true -> placeholders post = [] ->
  placeholders (s ++ pre ++ "$" ++ decimal n ++ post) = (placeholders s ++ [n])%list.
Proof.
  intros Hpre Epre Hpost Epost.
  rewrite placeholders_app.
  - rewrite (placeholders_app pre) by reflexivity.
    rewrite placeholders_param by assumption.
    now rewrite Epre, Epost.
  - destruct pre; [reflexivity | exact Hpre].
Qed.

Lemma placeholders_clause_end (s pre : string) (n : nat) :
  starts_nondigit (pre ++ "$") = true -> placeholders pre = [] ->
  placeholders (s ++ pre ++ "$" ++ decimal n) = (placeholders s ++ [n])%list.
Proof.
  intros Hpre Epre.
  rewrite <- (append_nil_r (decimal n)).
  now apply placeholders_clause.
Qed.

Lemma in_step_push (sql : string) (st : Loop.t) (v : JsValue) :
  in_step st ->
  placeholders sql = (placeholders (Loop.sql st) ++ [Loop.paramCount st])%list ->
  in_step (pushValue sql st v).
Proof.
  intros [Hs Hc] E. unfold in_step, pushValue; simpl.
  rewrite E, Hs, Hc, last_length, seq_S.
  split; [f_equal; f_equal; lia | lia].
Qed.

Lemma job_iteration_in_step st key v :
  In key Job.vocabulary -> in_step st -> in_step (Job.iteration st (key, v)).
Proof.
  intros Hk Hst. simpl in Hk.
  destruct Hk as [<-|[<-|[<-|[]]]]; cbn [Job.iteration String.eqb Ascii.eqb Bool.eqb].
  - apply in_step_push; [assumption|].
    change (connect st ++ " name ILIKE '%' || $" ++ decimal (Loop.paramCount st) ++ " || '%'")
      with (connect st ++ " name ILIKE '%' || " ++ "$" ++ decimal (Loop.paramCount st) ++ " || '%'").
    rewrite placeholders_clause by reflexivity. now rewrite placeholders_connect.
  - apply in_step_push; [assumption|].
    change (connect st ++ " salary >= $" ++ decimal (Loop.paramCount st))
      with (connect st ++ " salary >= " ++ "$" ++ decimal (Loop.paramCount st)).
    rewrite placeholders_clause_end by reflexivity. now rewrite placeholders_connect.
  - destruct Hst as [Hs Hc]. split; simpl; [|assumption].
    rewrite placeholders_app by reflexivity.
    rewrite placeholders_connect, Hs. simpl. now rewrite List.app_nil_r.
Qed.

Lemma company_iteration_in_step st key v :
  In key Company.vocabulary -> in_step st -> in_step (Company.iteration st (key, v)).
Proof.
  intros Hk Hst. simpl in Hk.
  destruct Hk as [<-|[<-|[<-|[]]]]; cbn [Company.iteration String.eqb Ascii.eqb Bool.eqb];
    (apply in_step_push; [assumption|]).
  - change (connect st ++ " name ILIKE '%' || $" ++ decimal (Loop.paramCount st) ++ " || '%'")
      with (connect st ++ " name ILIKE '%' || " ++ "$" ++ decimal (Loop.paramCount st) ++ " || '%'").
    rewrite placeholders_clause by reflexivity. now rewrite placeholders_connect.
  - change (connect st ++ " num_employees >= $" ++ decimal (Loop.paramCount st))
      with (connect st ++ " num_employees >= " ++ "$" ++ decimal (Loop.paramCount st)).
    rewrite placeholders_clause_end by reflexivity. now rewrite placeholders_connect.
  - change (connect st ++ " num_employees <= $" ++ decimal (Loop.paramCount st))
      with (connect st ++ " num_employees <= " ++ "$" ++ decimal (Loop.paramCount st)).
    rewrite placeholders_clause_end by reflexivity. now rewrite placeholders_connect.
Qed.

(** A loop whose iterations keep the invariant keeps it. *)
Section Fold.

Variable iteration : Loop.t -> string * JsValue -> Loop.t.
Variable vocab : list string.
Hypothesis iteration_in_step : forall st k v,
  In k vocab -> in_step st -> in_step (iteration st (k, v)).

Lemma fold_in_step (q : JsObject JsValue) : forall st,
  Forall (fun k => In k vocab) (keys q) -> in_step st ->
  in_step (fold_left iteration q st).
Proof.
  induction q as [|[k v] q IH]; intros st Hq Hst; simpl; [assumption|].
  inversion Hq; subst. apply IH; [assumption|].
  now apply iteration_in_step.
Qed.

End Fold.

Lemma job_loop_in_step q st :
  recognized Jobs q -> in_step st -> in_step (Job.loop q st).
Proof. apply (fold_in_step Job.iteration Job.vocabulary job_iteration_in_step). Qed.

Lemma company_loop_in_step q st :
  recognized Companies q -> in_step st -> in_step (Company.loop q st).
Proof.
  apply (fold_in_step Company.iteration Company.vocabulary company_iteration_in_step).
Qed.

Lemma job_init_in_step : in_step Job.init.
Proof. split; reflexivity. Qed.

Lemma company_init_in_step : in_step Company.init.
Proof. split; reflexivity. Qed.

End Placeholders.

(** C2.  For a filter mapping whose keys are all recognized by the resource
    (jobs: title, minSalary, hasEquity; companies: name, minEmployees,
    maxEmployees), the parameters that occur in the built statement are
    exactly [$1, $2, ..., $n] in this order, where [n] is the number of bind
    values returned: as many placeholders as values, strictly increasing,
    without gap or reuse. *)
Theorem filter_placeholders_are_1_to_n (r : Resource) (q : JsObject JsValue) :
  recognized r q ->
  placeholders (sql (buildFilterQuery r q))
  = seq 1 (List.length (values (buildFilterQuery r q))).
Proof.
  intros Hq. destruct r; simpl.
  - destruct (job_loop_in_step q Job.init Hq job_init_in_step) as [Hs _].
    rewrite placeholders_app by reflexivity. rewrite Hs. simpl. apply List.app_nil_r.
  - destruct (company_loop_in_step q Company.init Hq company_init_in_step) as [Hs _].
    rewrite placeholders_app by reflexivity. rewrite Hs. simpl. apply List.app_nil_r.
Qed.

Lemma filter_placeholders_are_1_to_n_witness :
  recognized Jobs scenarioD /\
  placeholders (sql (buildFilterQuery Jobs scenarioD)) = [1; 2].
Proof.
  assert (H : recognized Jobs scenarioD) by recognized_keys.
  split; [exact H | exact (filter_placeholders_are_1_to_n Jobs scenarioD H)].
Defined.

(** ** Which values are bound *)

Section BoundValues.

Lemma job_iteration_values st kv :
  Loop.values (Job.iteration st kv)
  = (Loop.values st ++ vals (filter binds_value [kv]))%list.
Proof.
  destruct kv as [k v]. unfold Job.iteration, binds_value, vals.
  cbn [filter fst].
  destruct (k =? "title") eqn:E1.
  - apply String.eqb_eq in E1; subst. reflexivity.
  - destruct (k =? "minSalary") eqn:E2.
    + apply String.eqb_eq in E2; subst. reflexivity.
    + destruct (k =? "hasEquity"); simpl; [now rewrite List.app_nil_r | reflexivity].
Qed.

Lemma job_loop_values q : forall st,
  Loop.values (Job.loop q st) = (Loop.values st ++ vals (filter binds_value q))%list.
Proof.
  unfold Job.loop.
  induction q as [|kv q IH]; intros st; simpl fold_left.
  - unfold vals. simpl. now rewrite List.app_nil_r.
  - rewrite IH, job_iteration_values. rewrite <- List.app_assoc. f_equal.
    simpl. destruct (binds_value kv); reflexivity.
Qed.

Lemma company_iteration_values st kv :
  Loop.values (Company.iteration st kv) = (Loop.values st ++ [snd kv])%list.
Proof.
  destruct kv as [k v]. unfold Company.iteration.
  destruct (k =? "name"); [reflexivity|].
  destruct (k =? "minEmployees"); [reflexivity|].
  destruct (k =? "maxEmployees"); reflexivity.
Qed.

Lemma company_loop_values q : forall st,
  Loop.values (Company.loop q st) = (Loop.values st ++ vals q)%list.
Proof.
  unfold Company.loop.
  induction q as [|kv q IH]; intros st; simpl fold_left.
  - unfold vals. simpl. now rewrite List.app_nil_r.
  - rewrite IH, company_iteration_values. now rewrite <- List.app_assoc.
Qed.

Lemma job_values q :
  values (Job.buildFindAllSQLWithQueryString q) = vals (filter binds_value q).
Proof. unfold Job.buildFindAllSQLWithQueryString. simpl. now rewrite job_loop_values. Qed.

Lemma company_values q :
  values (Company.buildFindAllSQLWithQueryString q) = vals q.
Proof. unfold Company.buildFindAllSQLWithQueryString. simpl. now rewrite company_loop_values. Qed.

End BoundValues.

(** ** The statement text is a function of the keys *)

Section KeysOnly.

Lemma same_text_connect a b : same_text a b -> connect a = connect b.
Proof. intros (Hs & Hb & _). unfold connect. now rewrite Hs, Hb. Qed.

Lemma job_iteration_same_text a b k v w :
  same_text a b -> same_text (Job.iteration a (k, v)) (Job.iteration b (k, w)).
Proof.
  intros H. pose proof (same_text_connect _ _ H) as Hc.
  destruct H as (Hs & Hb & Hp). unfold Job.iteration, same_text.
  rewrite Hc, Hp.
  destruct (k =? "title"); [simpl; auto|].
  destruct (k =? "minSalary"); [simpl; auto|].
  destruct (k =? "hasEquity"); simpl; auto.
Qed.

Lemma company_iteration_same_text a b k v w :
  same_text a b -> same_text (Company.iteration a (k, v)) (Company.iteration b (k, w)).
Proof.
  intros H. pose proof (same_text_connect _ _ H) as Hc.
  destruct H as (Hs & Hb & Hp). unfold Company.iteration, same_text.
  rewrite Hc, Hp.
  destruct (k =? "name"); [simpl; auto|].
  destruct (k =? "minEmployees"); [simpl; auto|].
  destruct (k =? "maxEmployees"); simpl; auto.
Qed.

(** Two runs of a loop over the same keys, when one iteration on the same
    key keeps the texts equal. *)
Section TwoRuns.

Variable iteration : Loop.t -> string * JsValue -> Loop.t.
Hypothesis iteration_same_text : forall a b k v w,
  same_text a b -> same_text (iteration a (k, v)) (iteration b (k, w)).

Lemma fold_same_text (q1 : JsObject JsValue) : forall q2 a b,
  keys q1 = keys q2 -> same_text a b ->
  same_text (fold_left iteration q1 a) (fold_left iteration q2 b).
Proof.
  induction q1 as [|[k v] q1 IH]; intros [|[k' w] q2] a b Hk H; simpl in Hk;
    try discriminate; simpl; [assumption|].
  injection Hk as -> Hk. apply IH; [assumption|].
  now apply iteration_same_text.
Qed.

End TwoRuns.

Lemma job_loop_same_text q1 q2 a b :
  keys q1 = keys q2 -> same_text a b -> same_text (Job.loop q1 a) (Job.loop q2 b).
Proof. apply (fold_same_text Job.iteration job_iteration_same_text). Qed.

Lemma company_loop_same_text q1 q2 a b :
  keys q1 = keys q2 -> same_text a b -> same_text (Company.loop q1 a) (Company.loop q2 b).
Proof. apply (fold_same_text Company.iteration company_iteration_same_text). Qed.

Lemma same_text_refl a : same_text a a.
Proof. repeat split. Qed.

End KeysOnly.

(** C1.  The statement text of either builder is a function of the keys of
    the input mapping: two mappings with the same keys in the same order give
    the same text (for the partial-update builder, under the same translation
    table, and the same failure when it fails).  The values of the mapping
    reach the bind-value list only: the update builder returns all of them in
    order, the company builder too, the job builder those of the keys other
    than hasEquity. *)
Theorem statement_text_depends_on_keys_only (m1 m2 : JsObject JsValue) :
  keys m1 = keys m2 ->
  (forall t, setColsOf (Sql.sqlForPartialUpdate m1 t)
             = setColsOf (Sql.sqlForPartialUpdate m2 t)) /\
  (forall r, sql (buildFilterQuery r m1) = sql (buildFilterQuery r m2)) /\
  (forall t p, Sql.sqlForPartialUpdate m1 t = inr p -> Sql.values p = vals m1) /\
  values (buildFilterQuery Jobs m1) = vals (filter binds_value m1) /\
  values (buildFilterQuery Companies m1) = vals m1.
Proof.
  intros Hk. repeat split.
  - intros t. unfold Sql.sqlForPartialUpdate. rewrite Hk.
    destruct (List.length (keys m2) =? 0)%nat; [reflexivity|].
    destruct (Sql.sequence _); reflexivity.
  - intros [|]; simpl.
    + now destruct (job_loop_same_text m1 m2 _ _ Hk (same_text_refl Job.init)) as [-> _].
    + now destruct (company_loop_same_text m1 m2 _ _ Hk (same_text_refl Company.init)) as [-> _].
  - intros t p. unfold Sql.sqlForPartialUpdate.
    destruct (List.length (keys m1) =? 0)%nat; [discriminate|].
    destruct (Sql.sequence _); simpl; [discriminate|].
    now intros [= <-].
  - apply job_values.
  - apply company_values.
Qed.

Lemma statement_text_depends_on_keys_only_witness :
  sql (buildFilterQuery Jobs [("title", JsString "test"); ("minSalary", JsNumber 80000)])
  = sql (buildFilterQuery Jobs [("title", JsString "x' OR 1=1 --"); ("minSalary", JsNull)]).
Proof.
  refine (proj1 (proj2 (statement_text_depends_on_keys_only
    [("title", JsString "test"); ("minSalary", JsNumber 80000)]
    [("title", JsString "x' OR 1=1 --"); ("minSalary", JsNull)] _)) Jobs).
  reflexivity.
Defined.

(** ** The empty update *)

(** With data to update, the translation table is read: an [undefined] table
    then raises, where the empty update did not reach the lookup. *)
Lemma sqlForPartialUpdate_reads_table k v d :
  Sql.sqlForPartialUpdate ((k, v) :: d) None
  = throw (TypeError ("Cannot read properties of undefined (reading '" ++ k ++ "')")).
Proof. reflexivity. Qed.

(** C3.  With an empty data mapping the partial-update builder raises
    BadRequestError("No data") and returns nothing, for every translation
    table; the check precedes the column lookup, so this also holds for an
    undefined table, on which a lookup would raise a TypeError. *)
Theorem sqlForPartialUpdate_no_data (jsToSql : option (JsObject string)) :
  Sql.sqlForPartialUpdate [] jsToSql = inl (BadRequestError "No data").
Proof. reflexivity. Qed.

(** ** The empty filter *)

(** C9.  For the empty filter mapping either builder returns the base
    projection and relation followed directly by the ORDER BY clause, and no
    bind value; the word WHERE does not occur in the statement. *)
Theorem empty_filter_has_no_where (r : Resource) :
  buildFilterQuery r [] = {| sql := baseSql r ++ orderBy r; values := [] |} /\
  contains "WHERE" (sql (buildFilterQuery r [])) = false.
Proof. destruct r; split; reflexivity. Qed.

(** ** The equity flag *)

(** C8.  In a job filter of recognized keys, the iteration for hasEquity
    appends the connective and the text equity > 0, leaves the counter and
    the bind values as they were; the mapping binds the same values as the
    mapping without the flag, and the parameters of its statement are still
    [$1 .. $n] for its [n] bind values. *)
Theorem hasEquity_is_a_literal_predicate (pre post : JsObject JsValue) (v : JsValue) :
  recognized Jobs pre -> recognized Jobs post ->
  let st := Job.loop pre Job.init in
  let st' := Job.iteration st ("hasEquity", v) in
  let q := (pre ++ ("hasEquity", v) :: post)%list in
  Loop.sql st' = connect st ++ " equity > 0" /\
  Loop.paramCount st' = Loop.paramCount st /\
  Loop.values st' = Loop.values st /\
  values (Job.buildFindAllSQLWithQueryString q)
  = values (Job.buildFindAllSQLWithQueryString (pre ++ post)%list) /\
  placeholders (sql (Job.buildFindAllSQLWithQueryString q))
  = seq 1 (List.length (values (Job.buildFindAllSQLWithQueryString (pre ++ post)%list))).
Proof.
  intros Hpre Hpost st st' q.
  assert (Hv : values (Job.buildFindAllSQLWithQueryString q)
               = values (Job.buildFindAllSQLWithQueryString (pre ++ post)%list)).
  { rewrite !job_values. unfold q. now rewrite !filter_app. }
  repeat split; try reflexivity; [exact Hv|].
  rewrite <- Hv.
  assert (Hq : recognized Jobs q).
  { unfold recognized, keys, q in *. rewrite map_app. apply Forall_app. split; [assumption|].
    simpl. constructor; [simpl; auto | assumption]. }
  destruct (job_loop_in_step q Job.init Hq job_init_in_step) as [Hs _].
  unfold Job.buildFindAllSQLWithQueryString at 1. simpl sql.
  rewrite placeholders_app by reflexivity. rewrite Hs. simpl.
  now rewrite List.app_nil_r.
Qed.

Lemma hasEquity_is_a_literal_predicate_witness :
  values (Job.buildFindAllSQLWithQueryString
            [("title", JsString "test"); ("hasEquity", JsBool true); ("minSalary", JsNumber 75000)])
  = [JsString "test"; JsNumber 75000] /\
  placeholders (sql (Job.buildFindAllSQLWithQueryString
            [("title", JsString "test"); ("hasEquity", JsBool true); ("minSalary", JsNumber 75000)]))
  = [1; 2].
Proof.
  assert (H1 : recognized Jobs [("title", JsString "test")])
    by recognized_keys.
  assert (H2 : recognized Jobs [("minSalary", JsNumber 75000)])
    by recognized_keys.
  pose proof (hasEquity_is_a_literal_predicate
                [("title", JsString "test")] [("minSalary", JsNumber 75000)]
                (JsBool true) H1 H2) as H.
  destruct H as (_ & _ & _ & Hv & Hp).
  split; [exact Hv | exact Hp].
Defined.

(** ** The title predicate of the job builder *)

(** C5.  What the code does for the title key: the predicate is the
    case-insensitive substring match with a wildcard on either side of the
    bound parameter, but on a column called name; the jobs relation is
    selected and sorted by title and has no such column. *)
Theorem job_title_predicate_names_column_name (st : Loop.t) (v : JsValue) :
  Loop.sql (Job.iteration st ("title", v))
  = connect st ++ " name ILIKE '%' || $" ++ decimal (Loop.paramCount st) ++ " || '%'"
  /\
  Job.buildFindAllSQLWithQueryString [("title", JsString "est")]
  = {| sql := Job.baseSql ++ " WHERE  name ILIKE '%' || $1 || '%' ORDER BY title";
       values := [JsString "est"] |}
  /\
  contains "title ILIKE" (sql (Job.buildFindAllSQLWithQueryString [("title", JsString "est")]))
  = false.
Proof. repeat split; reflexivity. Qed.

(** ** The assignments of a partial update *)

Section Assignments.

Lemma nth_error_mapi_from {A B} (f : A -> nat -> B) (l : list A) : forall s i,
  nth_error (mapi_from f s l) i = option_map (fun a => f a (s + i)) (nth_error l i).
Proof.
  induction l as [|a l IH]; intros s [|i]; simpl; try reflexivity.
  - now rewrite Nat.add_0_r.
  - rewrite IH. now rewrite Nat.add_succ_r.
Qed.

Lemma length_mapi_from {A B} (f : A -> nat -> B) (l : list A) : forall s,
  List.length (mapi_from f s l) = List.length l.
Proof. induction l as [|a l IH]; intros s; simpl; [reflexivity | now rewrite IH]. Qed.

Lemma sequence_setClause t ks : forall s,
  Sql.sequence (mapi_from (Sql.setClause (Some t)) s ks)
  = ret (mapi_from (fun k i => assignment (column t k) i) s ks).
Proof.
  induction ks as [|k ks IH]; intros s; simpl; [reflexivity|].
  now rewrite IH.
Qed.

Lemma sqlForPartialUpdate_assignments d t :
  d <> [] ->
  Sql.sqlForPartialUpdate d (Some t)
  = inr {| Sql.setCols := join ", " (mapi (fun k i => assignment (column t k) i) (keys d));
           Sql.values := vals d |}.
Proof.
  intros Hd. unfold Sql.sqlForPartialUpdate, mapi.
  destruct d as [|kv d]; [contradiction|].
  simpl Nat.eqb. cbv iota. now rewrite sequence_setClause.
Qed.

Lemma nth_error_keys {V} (o : JsObject V) i k v :
  nth_error o i = Some (k, v) ->
  nth_error (keys o) i = Some k /\ nth_error (vals o) i = Some v.
Proof.
  intros H. unfold keys, vals. rewrite !nth_error_map, H. now split.
Qed.

End Assignments.

(** ** Translation precedence *)

(** C6, as the code has it.  For a non-empty data mapping and a translation
    table, the column of each key's assignment is the table's entry for the
    key when that entry is a non-empty string; it is the key itself when the
    table has the empty string for it, and when the table has no entry for it
    and the key is not the name of a member that objects inherit. *)
Theorem translation_precedence_nonempty_entry (d : JsObject JsValue) (t : JsObject string) :
  d <> [] -> translation_precedence nonempty_entry_wins d t.
Proof.
  intros Hd.
  exists {| Sql.setCols := join ", " (mapi (fun k i => assignment (column t k) i) (keys d));
            Sql.values := vals d |}.
  exists (map (column t) (keys d)).
  split; [now apply sqlForPartialUpdate_assignments|].
  split.
  { simpl. f_equal. unfold mapi. generalize 0.
    induction (keys d) as [|k ks IH]; intros s; simpl; [reflexivity | now rewrite IH]. }
  split; [unfold keys; now rewrite !length_map|].
  intros i k Hk. exists (column t k).
  split; [now rewrite nth_error_map, Hk|].
  unfold nonempty_entry_wins, column, member. split; [|split].
  - intros e -> He. destruct e; [contradiction | reflexivity].
  - intros ->. reflexivity.
  - intros -> ->. reflexivity.
Qed.

Lemma translation_precedence_nonempty_entry_witness :
  translation_precedence nonempty_entry_wins
    [("numEmployees", JsNumber 10); ("name", JsString "C1")]
    [("numEmployees", "num_employees"); ("logoUrl", "logo_url")].
Proof.
  apply translation_precedence_nonempty_entry. discriminate.
Defined.

(** C6, as stated, fails in two places.  With the empty table, which
    [Job.update] passes, the key toString has no entry, and the code writes
    the text of the inherited method, not the key.  With the empty string as
    entry, the code writes the key, not the entry. *)
Lemma translation_precedence_entry_wins_fails :
  ~ translation_precedence entry_wins [("toString", JsNumber 2)] [] /\
  ~ translation_precedence entry_wins
      [("firstName", JsString "Aliya")] [("firstName", "")].
Proof.
  split.
  - intros (p & cols & Hp & Hs & Hl & Hr).
    destruct (Hr 0 "toString" eq_refl) as (col & Hc & _ & Hrule).
    destruct cols as [|c [|c' cols]]; try discriminate Hl.
    injection Hc as ->. rewrite (Hrule eq_refl) in Hs.
    injection Hp as <-. discriminate Hs.
  - intros (p & cols & Hp & Hs & Hl & Hr).
    destruct (Hr 0 "firstName" eq_refl) as (col & Hc & Hrule & _).
    destruct cols as [|c [|c' cols]]; try discriminate Hl.
    injection Hc as ->. rewrite (Hrule "" eq_refl) in Hs.
    injection Hp as <-. discriminate Hs.
Qed.

Example inherited_member_becomes_column :
  Sql.sqlForPartialUpdate [("toString", JsNumber 2)] (Some [])
  = inr {| Sql.setCols := dquote ++ "function toString() { [native code] }" ++ dquote ++ "=$1";
           Sql.values := [JsNumber 2] |}.
Proof. reflexivity. Qed.

Example empty_entry_falls_back_to_key :
  Sql.sqlForPartialUpdate [("firstName", JsString "Aliya")] (Some [("firstName", "")])
  = inr {| Sql.setCols := dquote ++ "firstName" ++ dquote ++ "=$1";
           Sql.values := [JsString "Aliya"] |}.
Proof. reflexivity. Qed.

(** ** Unrecognized filter keys *)

Lemma is_recognized_spec r k : Route.is_recognized r k = true <-> In k (vocabulary r).
Proof.
  unfold Route.is_recognized. rewrite existsb_exists. split.
  - intros (x & Hx & E). apply String.eqb_eq in E. now subst.
  - intros H. exists k. split; [assumption | apply String.eqb_refl].
Qed.

(** The builders themselves have no such check: for a key they have no
    branch for, they add a connective without predicate and bind the value. *)
Example builder_accepts_unrecognized_key :
  Job.buildFindAllSQLWithQueryString
    [("fakeQueryField", JsString "blah"); ("title", JsString "test")]
  = {| sql := Job.baseSql ++ " WHERE  AND  name ILIKE '%' || $2 || '%' ORDER BY title";
       values := [JsString "blah"; JsString "test"] |}.
Proof. reflexivity. Qed.

(** C4.  On the filter query path, a mapping with a key outside the
    vocabulary of the resource fails with UnrecognizedFilterKeyError; the key
    named is a key of the mapping outside the vocabulary, and it is the
    offending key itself when all other keys are recognized; no statement is
    built. *)
Theorem unrecognized_filter_key_is_rejected (r : Resource) (q : JsObject JsValue) (k : string) :
  In k (keys q) -> ~ In k (vocabulary r) ->
  exists k',
    Route.filterQuery r q = inl (Route.UnrecognizedFilterKeyError k') /\
    In k' (keys q) /\ ~ In k' (vocabulary r) /\
    (Forall (fun x => x = k \/ In x (vocabulary r)) (keys q) -> k' = k).
Proof.
  intros Hin Hout. unfold Route.filterQuery, Route.checkFilterKeys.
  destruct (find _ (keys q)) as [k'|] eqn:E.
  - apply find_some in E. destruct E as [Hk' Hn].
    assert (Hnot : ~ In k' (vocabulary r)).
    { intros H. apply is_recognized_spec in H. rewrite H in Hn. discriminate. }
    exists k'. repeat split; try assumption.
    intros Hall. rewrite Forall_forall in Hall.
    destruct (Hall k' Hk') as [->|H]; [reflexivity | contradiction].
  - exfalso. pose proof (find_none _ _ E k Hin) as Hn. simpl in Hn.
    apply Bool.negb_false_iff in Hn. apply is_recognized_spec in Hn. contradiction.
Qed.

Lemma unrecognized_filter_key_is_rejected_witness :
  exists k',
    Route.filterQuery Jobs [("fakeQueryField", JsString "blah"); ("title", JsString "test")]
    = inl (Route.UnrecognizedFilterKeyError k') /\
    In k' ["fakeQueryField"; "title"] /\ ~ In k' (vocabulary Jobs) /\
    (Forall (fun x => x = "fakeQueryField" \/ In x (vocabulary Jobs))
            ["fakeQueryField"; "title"] -> k' = "fakeQueryField").
Proof.
  apply (unrecognized_filter_key_is_rejected Jobs
           [("fakeQueryField", JsString "blah"); ("title", JsString "test")]
           "fakeQueryField").
  - simpl. auto.
  - simpl. intros [H|[H|[H|[]]]]; discriminate H.
Defined.


(** ** The shape of a filter statement *)

Section Shape.

Lemma string_app_assoc (a b c : string) : (a ++ b) ++ c = a ++ b ++ c.
Proof. induction a as [|x a IH]; simpl; [reflexivity | now rewrite IH]. Qed.

Lemma join_cons sep ps : forall p, join sep (p :: ps) = p ++ behind sep ps.
Proof.
  unfold join. induction ps as [|x ps IH]; intros p.
  - simpl. now rewrite append_nil_r.
  - change (concat sep (p :: x :: ps)) with (p ++ sep ++ concat sep (x :: ps)).
    now rewrite IH.
Qed.

Lemma buildFilterQuery_fold r q :
  buildFilterQuery r q
  = {| sql := Loop.sql (fold_left (iteration r) q (init r)) ++ orderBy r;
       values := Loop.values (fold_left (iteration r) q (init r)) |}.
Proof. destruct r; reflexivity. Qed.

Lemma iteration_text r st k v :
  Loop.sql (iteration r st (k, v)) = connect st ++ predicate r k (Loop.paramCount st) /\
  Loop.startedSql (iteration r st (k, v)) = true /\
  Loop.paramCount (iteration r st (k, v)) = advance r k (Loop.paramCount st).
Proof.
  destruct r; simpl; unfold Job.iteration, Company.iteration.
  - destruct (k =? "title") eqn:E1.
    { apply String.eqb_eq in E1; subst. repeat split. }
    destruct (k =? "minSalary") eqn:E2.
    { apply String.eqb_eq in E2; subst. repeat split. }
    destruct (k =? "hasEquity"); simpl; repeat split.
    now rewrite append_nil_r.
  - destruct (k =? "name"); [repeat split|].
    destruct (k =? "minEmployees"); [repeat split|].
    destruct (k =? "maxEmployees"); simpl; repeat split.
    now rewrite append_nil_r.
Qed.

Lemma fold_started_text r q : forall st,
  Loop.startedSql st = true ->
  Loop.sql (fold_left (iteration r) q st)
  = Loop.sql st ++ behind " AND " (predicates r q (Loop.paramCount st)).
Proof.
  induction q as [|[k v] q IH]; intros st Hst; simpl fold_left.
  - simpl. now rewrite append_nil_r.
  - destruct (iteration_text r st k v) as (Hs & Hb & Hp).
    rewrite (IH _ Hb), Hs, Hp. unfold connect. rewrite Hst.
    simpl predicates. unfold behind at 2. simpl fold_right.
    now rewrite !string_app_assoc.
Qed.

Lemma filter_sql_nonempty r k v q :
  sql (buildFilterQuery r ((k, v) :: q))
  = baseSql r ++ " WHERE " ++ join " AND " (predicates r ((k, v) :: q) 1) ++ orderBy r.
Proof.
  rewrite buildFilterQuery_fold. simpl sql. simpl fold_left.
  destruct (iteration_text r (init r) k v) as (Hs & Hb & Hp).
  rewrite (fold_started_text r q _ Hb), Hs, Hp.
  simpl predicates. rewrite join_cons.
  replace (connect (init r)) with (baseSql r ++ " WHERE ") by (destruct r; reflexivity).
  replace (Loop.paramCount (init r)) with 1 by (destruct r; reflexivity).
  now rewrite !string_app_assoc.
Qed.

Lemma length_predicates r q : forall n, List.length (predicates r q n) = List.length q.
Proof.
  induction q as [|[k v] q IH]; intros n; simpl; [reflexivity | now rewrite IH].
Qed.

Lemma prefix_here p b : String.prefix p (p ++ b) = true.
Proof.
  induction p as [|c p IH]; simpl; [now destruct b|].
  destruct (ascii_dec c c); [assumption | contradiction].
Qed.

Lemma contains_app_r p a b : contains p b = true -> contains p (a ++ b) = true.
Proof.
  intros H. induction a as [|c a IH]; simpl; [assumption|].
  rewrite IH. apply Bool.orb_true_r.
Qed.

Lemma contains_prefix p s : String.prefix p s = true -> contains p s = true.
Proof. intros H. destruct s; cbn [contains]; now rewrite H. Qed.

Lemma contains_here p b : contains p (p ++ b) = true.
Proof. apply contains_prefix, prefix_here. Qed.

End Shape.

(** C10.  Wherever hasEquity occurs in a job filter, whatever its value and
    the other properties, the builder appends the connective and the clause
    equity > 0 to the text built for the properties before it, and binds
    nothing for it; the result does not depend on the value.  So hasEquity:
    false and hasEquity: true give the same statement, with the clause
    equity > 0, and the same bind values. *)
Theorem hasEquity_value_is_ignored (pre post : JsObject JsValue) (v w : JsValue) :
  Job.buildFindAllSQLWithQueryString (pre ++ ("hasEquity", v) :: post)%list
  = Job.buildFindAllSQLWithQueryString (pre ++ ("hasEquity", w) :: post)%list
  /\
  (exists rest,
     sql (Job.buildFindAllSQLWithQueryString (pre ++ ("hasEquity", v) :: post)%list)
     = connect (Job.loop pre Job.init) ++ " equity > 0" ++ rest)
  /\
  contains " equity > 0"
    (sql (Job.buildFindAllSQLWithQueryString (pre ++ ("hasEquity", v) :: post)%list)) = true
  /\
  values (Job.buildFindAllSQLWithQueryString (pre ++ ("hasEquity", v) :: post)%list)
  = values (Job.buildFindAllSQLWithQueryString (pre ++ post)%list)
  /\
  Job.buildFindAllSQLWithQueryString [("hasEquity", JsBool false)]
  = Job.buildFindAllSQLWithQueryString [("hasEquity", JsBool true)]
  /\
  Job.buildFindAllSQLWithQueryString [("hasEquity", JsBool false)]
  = {| sql := Job.baseSql ++ " WHERE  equity > 0 ORDER BY title"; values := [] |}.
Proof.
  assert (Htext : sql (Job.buildFindAllSQLWithQueryString
                         (pre ++ ("hasEquity", v) :: post)%list)
                  = connect (Job.loop pre Job.init) ++ " equity > 0"
                    ++ behind " AND "
                         (predicates Jobs post (Loop.paramCount (Job.loop pre Job.init)))
                    ++ " ORDER BY title").
  { unfold Job.buildFindAllSQLWithQueryString, Job.loop. cbn [sql].
    rewrite fold_left_app. cbn [fold_left].
    rewrite (fold_started_text Jobs post) by reflexivity.
    cbn [Job.iteration String.eqb Ascii.eqb Bool.eqb Loop.sql Loop.paramCount].
    now rewrite !string_app_assoc. }
  split; [|split; [|split; [|split; [|split]]]]; try reflexivity.
  - unfold Job.buildFindAllSQLWithQueryString, Job.loop.
    now rewrite !fold_left_app.
  - eexists. exact Htext.
  - rewrite Htext. apply contains_app_r, contains_here.
  - rewrite !job_values. now rewrite !filter_app.
Qed.

(** X1.  For a non-empty filter mapping, whatever its keys, the statement of
    either builder is the base text, then WHERE, then one predicate per
    property of the mapping in order, separated by AND, then the ORDER BY
    clause; a key without branch contributes an empty predicate. *)
Theorem filter_statement_shape (r : Resource) (q : JsObject JsValue) :
  q <> [] ->
  sql (buildFilterQuery r q)
  = baseSql r ++ " WHERE " ++ join " AND " (predicates r q 1) ++ orderBy r /\
  List.length (predicates r q 1) = List.length q.
Proof.
  intros Hq. destruct q as [|[k v] q]; [contradiction|].
  split; [apply filter_sql_nonempty | apply length_predicates].
Qed.

Lemma filter_statement_shape_witness :
  sql (buildFilterQuery Jobs scenarioD)
  = baseSql Jobs ++ " WHERE " ++ join " AND " (predicates Jobs scenarioD 1) ++ orderBy Jobs /\
  List.length (predicates Jobs scenarioD 1) = 3.
Proof. apply (filter_statement_shape Jobs scenarioD). discriminate. Defined.

(** X2.  The statement of either builder has a WHERE exactly when the filter
    mapping has a property, recognized or not. *)
Theorem where_iff_filter_nonempty (r : Resource) (q : JsObject JsValue) :
  contains "WHERE" (sql (buildFilterQuery r q))
  = match q with [] => false | _ :: _ => true end.
Proof.
  destruct q as [|[k v] q]; [destruct r; reflexivity|].
  rewrite filter_sql_nonempty.
  apply contains_app_r.
  change (" WHERE " ++ ?x) with (" " ++ "WHERE" ++ " " ++ x).
  apply contains_app_r, contains_here.
Qed.

Section KeyClasses.

Lemma not_in_vocabulary_job k :
  ~ In k (vocabulary Jobs) ->
  (k =? "title") = false /\ (k =? "minSalary") = false /\ (k =? "hasEquity") = false.
Proof.
  intros H. repeat split; apply String.eqb_neq; intros ->; apply H; simpl; auto.
Qed.

Lemma not_in_vocabulary_company k :
  ~ In k (vocabulary Companies) ->
  (k =? "name") = false /\ (k =? "minEmployees") = false /\ (k =? "maxEmployees") = false.
Proof.
  intros H. repeat split; apply String.eqb_neq; intros ->; apply H; simpl; auto.
Qed.

Lemma unrecognized_predicate r k n :
  ~ In k (vocabulary r) -> predicate r k n = "" /\ advance r k n = n + 1.
Proof.
  intros H. destruct r; simpl.
  - destruct (not_in_vocabulary_job k H) as (-> & -> & ->). now split.
  - destruct (not_in_vocabulary_company k H) as (-> & -> & ->). now split.
Qed.

Lemma same_class_predicates r q1 : forall q2 n,
  Forall2 (same_class r) (keys q1) (keys q2) -> predicates r q1 n = predicates r q2 n.
Proof.
  induction q1 as [|[k1 v1] q1 IH]; intros [|[k2 v2] q2] n H; simpl in H;
    inversion H; subst; [reflexivity|].
  simpl. match goal with Hc : same_class _ _ _ |- _ => destruct Hc as [->|[H1 H2]] end.
  - f_equal. now apply IH.
  - destruct (unrecognized_predicate r k1 n H1) as [-> ->].
    destruct (unrecognized_predicate r k2 n H2) as [-> ->].
    f_equal. now apply IH.
Qed.

End KeyClasses.

(** X3.  The name of a key outside the vocabulary never reaches the statement
    text: two filter mappings that differ only in the values and in the names
    of their unrecognized keys give the same statement. *)
Theorem unrecognized_key_names_stay_out_of_text (r : Resource) (q1 q2 : JsObject JsValue) :
  Forall2 (same_class r) (keys q1) (keys q2) ->
  sql (buildFilterQuery r q1) = sql (buildFilterQuery r q2).
Proof.
  intros H. pose proof (same_class_predicates r q1 q2 1 H) as Hp.
  destruct q1 as [|[k1 v1] q1], q2 as [|[k2 v2] q2]; simpl in H;
    try (inversion H; fail); [reflexivity|].
  now rewrite !filter_sql_nonempty, Hp.
Qed.

Lemma unrecognized_key_names_stay_out_of_text_witness :
  sql (buildFilterQuery Jobs [("fakeQueryField", JsString "blah"); ("title", JsString "test")])
  = sql (buildFilterQuery Jobs [("id; DROP TABLE jobs", JsNull); ("title", JsNumber 1)]).
Proof.
  apply unrecognized_key_names_stay_out_of_text.
  apply Forall2_cons; [|apply Forall2_cons; [left; reflexivity | apply Forall2_nil]].
  right. split; simpl; intros [H|[H|[H|[]]]]; discriminate H.
Defined.

(** ** Parameters and the values they are bound to *)

Section Resolve.

Lemma fold_values r q st :
  Loop.values (fold_left (iteration r) q st)
  = (Loop.values st ++ vals (filter (binds r) q))%list.
Proof.
  destruct r.
  - apply job_loop_values.
  - assert (E : filter (binds Companies) q = q).
    { induction q as [|kv q IH]; simpl; [reflexivity | now rewrite IH]. }
    rewrite E. apply company_loop_values.
Qed.

Lemma placeholders_predicate_param (pre post : string) (n : nat) :
  placeholders pre = [] -> starts_nondigit post = true -> placeholders post = [] ->
  placeholders (pre ++ "$" ++ decimal n ++ post) = [n].
Proof.
  intros Epre Hpost Epost.
  rewrite (placeholders_app pre) by reflexivity.
  rewrite placeholders_param by assumption. now rewrite Epre, Epost.
Qed.

Lemma key_cases r k v n :
  placeholders (predicate r k n) = (if is_param r (k, v) then [n] else []) /\
  advance r k n = (if binds r (k, v) then n + 1 else n) /\
  (is_param r (k, v) = true -> binds r (k, v) = true) /\
  starts_nondigit (predicate r k n) = true.
Proof.
  assert (Hend : forall pre, placeholders pre = [] ->
            placeholders (pre ++ "$" ++ decimal n) = [n]).
  { intros pre H. rewrite <- (append_nil_r (decimal n)).
    now apply placeholders_predicate_param. }
  destruct r; unfold predicate, advance, is_param, binds, binds_value, parameterized;
    cbn [existsb fst].
  - destruct (k =? "title") eqn:E1.
    { apply String.eqb_eq in E1; subst. repeat split.
      now apply (placeholders_predicate_param " name ILIKE '%' || " " || '%'"). }
    destruct (k =? "minSalary") eqn:E2.
    { apply String.eqb_eq in E2; subst. repeat split.
      now apply (Hend " salary >= "). }
    destruct (k =? "hasEquity"); simpl; repeat split; discriminate.
  - destruct (k =? "name") eqn:E1.
    { repeat split. now apply (placeholders_predicate_param " name ILIKE '%' || " " || '%'"). }
    destruct (k =? "minEmployees") eqn:E2.
    { repeat split. now apply (Hend " num_employees >= "). }
    destruct (k =? "maxEmployees") eqn:E3; simpl; repeat split.
    now apply (Hend " num_employees <= ").
Qed.

Lemma fold_placeholders r q : forall st,
  placeholders (Loop.sql (fold_left (iteration r) q st))
  = (placeholders (Loop.sql st)
     ++ flat_map placeholders (predicates r q (Loop.paramCount st)))%list.
Proof.
  induction q as [|[k v] q IH]; intros st; simpl fold_left.
  - simpl. now rewrite List.app_nil_r.
  - destruct (iteration_text r st k v) as (Hs & _ & Hp).
    destruct (key_cases r k v (Loop.paramCount st)) as (_ & _ & _ & Hn).
    rewrite IH, Hs, Hp. rewrite placeholders_app by assumption.
    rewrite placeholders_connect. simpl. now rewrite <- List.app_assoc.
Qed.

Lemma filter_placeholders r q :
  placeholders (sql (buildFilterQuery r q))
  = flat_map placeholders (predicates r q 1).
Proof.
  rewrite buildFilterQuery_fold. simpl sql.
  assert (Ho : starts_nondigit (orderBy r) = true /\ placeholders (orderBy r) = [])
    by (destruct r; split; reflexivity).
  destruct Ho as [Ho1 Ho2].
  rewrite placeholders_app by assumption. rewrite Ho2, List.app_nil_r, fold_placeholders.
  now destruct r.
Qed.

Lemma filter_values r q : values (buildFilterQuery r q) = vals (filter (binds r) q).
Proof.
  rewrite buildFilterQuery_fold. simpl values. rewrite fold_values. now destruct r.
Qed.

Lemma resolve_predicates r q : forall vs0,
  map (resolve (vs0 ++ vals (filter (binds r) q)))
      (flat_map placeholders (predicates r q (List.length vs0 + 1)))
  = map Some (vals (filter (is_param r) q)).
Proof.
  induction q as [|[k v] q IH]; intros vs0; [reflexivity|].
  destruct (key_cases r k v (List.length vs0 + 1)) as (Hp & Ha & Hpb & _).
  cbn [predicates flat_map filter]. rewrite Hp, Ha.
  destruct (binds r (k, v)) eqn:Eb.
  - assert (E : (vs0 ++ vals ((k, v) :: filter (binds r) q))%list
                = ((vs0 ++ [v]) ++ vals (filter (binds r) q))%list).
    { unfold vals. simpl. now rewrite <- List.app_assoc. }
    rewrite E.
    replace (List.length vs0 + 1 + 1) with (List.length (vs0 ++ [v]) + 1)
      by (rewrite last_length; lia).
    destruct (is_param r (k, v)).
    + cbn [app map]. rewrite IH. f_equal.
      rewrite Nat.add_1_r. simpl resolve.
      rewrite <- List.app_assoc. now rewrite nth_error_app2, Nat.sub_diag by lia.
    + simpl app. apply IH.
  - destruct (is_param r (k, v)); [specialize (Hpb eq_refl); discriminate|].
    simpl app. apply IH.
Qed.

Lemma filter_resolve r q :
  map (resolve (values (buildFilterQuery r q))) (placeholders (sql (buildFilterQuery r q)))
  = map Some (vals (filter (is_param r) q)).
Proof.
  rewrite filter_placeholders, filter_values.
  apply (resolve_predicates r q []).
Qed.

Lemma filter_length_le {A} (f g : A -> bool) (l : list A) :
  (forall x, f x = true -> g x = true) ->
  List.length (filter f l) <= List.length (filter g l).
Proof.
  intros H. induction l as [|a l IH]; simpl; [lia|].
  destruct (f a) eqn:E; [rewrite (H a E); simpl; lia|].
  destruct (g a); simpl; lia.
Qed.

Lemma filter_same_length {A} (f g : A -> bool) (l : list A) :
  (forall x, f x = true -> g x = true) ->
  List.length (filter f l) = List.length (filter g l) ->
  forall x, In x l -> g x = true -> f x = true.
Proof.
  intros H. induction l as [|a l IH]; simpl; [contradiction|].
  pose proof (filter_length_le f g l H) as Hle.
  intros Hlen x [->|Hx] Hg.
  - destruct (f x) eqn:E; [reflexivity|]. rewrite Hg in Hlen. simpl in Hlen. lia.
  - apply IH; try assumption.
    destruct (f a) eqn:E; [rewrite (H a E) in Hlen; simpl in Hlen; lia|].
    destruct (g a); simpl in Hlen; lia.
Qed.

Lemma binds_or_param_recognized r k v :
  (binds r (k, v) = true -> is_param r (k, v) = true) -> In k (vocabulary r).
Proof.
  unfold is_param. cbn [fst]. intros H.
  destruct (binds r (k, v)) eqn:Eb.
  - specialize (H eq_refl). apply existsb_exists in H.
    destruct H as (x & Hx & E). apply String.eqb_eq in E. subst x.
    destruct r; simpl in *; tauto.
  - destruct r; [|discriminate]. unfold binds, binds_value in Eb. cbn [fst] in Eb.
    apply Bool.negb_false_iff, String.eqb_eq in Eb. subst. simpl. auto.
Qed.

End Resolve.

(** X4.  For every filter mapping, recognized keys or not, each parameter of
    the statement of either builder is bound, in the value list returned with
    it, to the value of the property whose predicate it stands in: read in
    order, the parameters give the values of the parameterized keys (jobs:
    title, minSalary; companies: name, minEmployees, maxEmployees). *)
Theorem filter_parameters_resolve_to_their_values (r : Resource) (q : JsObject JsValue) :
  map (resolve (values (buildFilterQuery r q))) (placeholders (sql (buildFilterQuery r q)))
  = map Some (vals (filter (is_param r) q)).
Proof.
  rewrite filter_placeholders, filter_values.
  apply (resolve_predicates r q []).
Qed.

(** X5.  The parameters of the statement are [$1 .. $n] for the [n] values
    returned exactly when every key of the filter mapping is recognized: a
    key outside the vocabulary binds a value that no parameter stands for. *)
Theorem parameters_in_step_iff_recognized (r : Resource) (q : JsObject JsValue) :
  recognized r q <->
  placeholders (sql (buildFilterQuery r q))
  = seq 1 (List.length (values (buildFilterQuery r q))).
Proof.
  split.
  - intros Hq.
    assert (H : in_step (fold_left (iteration r) q (init r))).
    { destruct r; [now apply job_loop_in_step, job_init_in_step
                  | now apply company_loop_in_step, company_init_in_step]. }
    rewrite buildFilterQuery_fold. simpl. destruct H as [Hs _].
    rewrite placeholders_app by (destruct r; reflexivity). rewrite Hs.
    destruct r; simpl; apply List.app_nil_r.
  - intros H.
    assert (Hlen : List.length (filter (is_param r) q) = List.length (filter (binds r) q)).
    { pose proof (f_equal (@List.length _) (filter_resolve r q)) as E.
      rewrite !length_map in E. rewrite H, length_seq, filter_values in E.
      unfold vals in E. rewrite ?length_map in E. lia. }
    assert (Himp : forall x, is_param r x = true -> binds r x = true).
    { intros [k v]. apply (key_cases r k v 0). }
    unfold recognized, keys. apply Forall_map, Forall_forall. intros [k v] Hin.
    apply (binds_or_param_recognized r k v).
    now apply (filter_same_length _ _ q Himp Hlen).
Qed.

Lemma parameters_in_step_iff_recognized_witness : recognized Jobs scenarioD.
Proof. apply (proj2 (parameters_in_step_iff_recognized Jobs scenarioD)). reflexivity. Defined.

(** ** The parameters of an update *)

Section UpdateParameters.

Lemma no_dollar_skip (a b : string) :
  no_dollar a = true -> placeholders (a ++ b) = placeholders b.
Proof.
  induction a as [|c a IH]; simpl; [reflexivity|].
  destruct (Ascii.eqb c "$"); simpl; [discriminate | exact IH].
Qed.

Lemma no_dollar_placeholders (a : string) : no_dollar a = true -> placeholders a = [].
Proof. intros H. rewrite <- (append_nil_r a). now rewrite no_dollar_skip. Qed.

Lemma placeholders_assignment (c r : string) (i : nat) :
  placeholders c = [] -> starts_nondigit r = true ->
  placeholders (assignment c i ++ r) = (i + 1) :: placeholders r.
Proof.
  intros Hc Hr. unfold assignment. rewrite !string_app_assoc.
  rewrite (no_dollar_skip dquote) by reflexivity.
  rewrite (placeholders_app c) by reflexivity. rewrite Hc. cbn [app].
  rewrite (no_dollar_skip dquote) by reflexivity.
  change ("=$" ++ decimal (i + 1) ++ r) with ("=" ++ "$" ++ decimal (i + 1) ++ r).
  rewrite (no_dollar_skip "=") by reflexivity.
  now apply placeholders_param.
Qed.

Lemma starts_nondigit_behind (l : list string) (r : string) :
  starts_nondigit r = true -> starts_nondigit (behind ", " l ++ r) = true.
Proof. destruct l; [trivial | reflexivity]. Qed.

Lemma placeholders_behind (cols : list string) (r : string) : forall s,
  Forall (fun c => placeholders c = []) cols -> starts_nondigit r = true ->
  placeholders (behind ", " (mapi_from assignment s cols) ++ r)
  = (seq (s + 1) (List.length cols) ++ placeholders r)%list.
Proof.
  induction cols as [|c cols IH]; intros s Hc Hr; [reflexivity|].
  inversion Hc; subst. cbn [mapi_from behind fold_right].
  fold (behind ", " (mapi_from assignment (S s) cols)).
  rewrite !string_app_assoc. rewrite (no_dollar_skip ", ") by reflexivity.
  rewrite placeholders_assignment by (try assumption; now apply starts_nondigit_behind).
  rewrite IH by assumption. simpl. now rewrite Nat.add_1_r.
Qed.

Lemma no_dollar_columns (cols : list string) :
  Forall (fun c => no_dollar c = true) cols -> Forall (fun c => placeholders c = []) cols.
Proof. apply Forall_impl. intros c. apply no_dollar_placeholders. Qed.

Lemma placeholders_assignments (cols : list string) (r : string) :
  Forall (fun c => placeholders c = []) cols -> starts_nondigit r = true ->
  placeholders (join ", " (mapi assignment cols) ++ r)
  = (seq 1 (List.length cols) ++ placeholders r)%list.
Proof.
  intros Hc Hr. unfold mapi. destruct cols as [|c cols]; [reflexivity|].
  inversion Hc; subst. cbn [mapi_from]. rewrite join_cons, string_app_assoc.
  rewrite placeholders_assignment by (try assumption; now apply starts_nondigit_behind).
  now rewrite placeholders_behind by assumption.
Qed.

(** A statement with the assignments, then the parameter after them. *)
Lemma placeholders_update (pre mid post : string) (cols : list string) :
  no_dollar pre = true -> no_dollar mid = true -> starts_nondigit (mid ++ "$") = true ->
  no_dollar post = true -> starts_nondigit post = true ->
  Forall (fun c => no_dollar c = true) cols ->
  placeholders (pre ++ join ", " (mapi assignment cols) ++ mid
                ++ ("$" ++ decimal (List.length cols + 1)) ++ post)
  = seq 1 (List.length cols + 1).
Proof.
  intros Hpre Hmid Hmid' Hpost Hpost' Hc.
  rewrite no_dollar_skip by assumption.
  rewrite placeholders_assignments; [|now apply no_dollar_columns|].
  - rewrite no_dollar_skip by assumption.
    change (("$" ++ ?x) ++ post) with ("$" ++ x ++ post).
    rewrite placeholders_param by assumption.
    rewrite (no_dollar_placeholders post) by assumption.
    rewrite Nat.add_1_r at 2. now rewrite seq_S, Nat.add_1_r.
  - destruct mid; [exact Hmid' | exact Hmid'].
Qed.

Lemma mapi_from_map {A B C} (g : A -> B) (f : B -> nat -> C) (l : list A) : forall s,
  mapi_from (fun a i => f (g a) i) s l = mapi_from f s (map g l).
Proof. induction l as [|a l IH]; intros s; simpl; [reflexivity | now rewrite IH]. Qed.

Lemma sqlForPartialUpdate_columns d t :
  d <> [] ->
  Sql.sqlForPartialUpdate d (Some t)
  = inr {| Sql.setCols := join ", " (mapi assignment (map (column t) (keys d)));
           Sql.values := vals d |}.
Proof.
  intros Hd. rewrite sqlForPartialUpdate_assignments by assumption.
  unfold mapi. now rewrite mapi_from_map.
Qed.

Lemma resolve_seq (vs : list JsValue) :
  map (resolve vs) (seq 1 (List.length vs)) = map Some vs.
Proof.
  rewrite <- seq_shift, map_map. simpl.
  induction vs as [|v vs IH]; [reflexivity|].
  simpl. f_equal. rewrite <- seq_shift, map_map. exact IH.
Qed.

End UpdateParameters.

(** C7, as the code has it.  For a non-empty data mapping of [n] properties
    and a translation table, when no column the builder writes contains a
    parameter of its own (a $ followed by a digit): the builder succeeds; its
    values are the [n] values of the mapping in order; the text is the
    assignment clauses joined with ", ", the clause of the property at
    position [i] (from 0) carrying the parameter [$(i+1)] and its value
    standing at position [i] of the values; the parameters of the text are
    [$1 .. $n], so the callers' next parameter [$(n+1)] is free.  The
    two-field example of the documentation gives "first_name"=$1, "age"=$2
    with the values Aliya and 32. *)
Theorem partial_update_values_follow_placeholders :
  (forall (d : JsObject JsValue) (t : JsObject string),
     d <> [] ->
     Forall (fun k => placeholders (column t k) = []) (keys d) ->
     values_follow_placeholders d t)
  /\
  Sql.sqlForPartialUpdate
    [("firstName", JsString "Aliya"); ("age", JsNumber 32)]
    (Some [("firstName", "first_name"); ("age", "age")])
  = inr {| Sql.setCols := dquote ++ "first_name" ++ dquote ++ "=$1, "
                          ++ dquote ++ "age" ++ dquote ++ "=$2";
           Sql.values := [JsString "Aliya"; JsNumber 32] |}.
Proof.
  split; [|reflexivity].
  intros d t Hd Hcols.
  exists {| Sql.setCols := join ", " (mapi (fun k i => assignment (column t k) i) (keys d));
            Sql.values := vals d |}.
  exists (mapi (fun k i => assignment (column t k) i) (keys d)).
  assert (Hlen : List.length (vals d) = List.length d) by apply length_map.
  assert (Hp : placeholders
                 (join ", " (mapi (fun k i => assignment (column t k) i) (keys d)))
               = seq 1 (List.length d)).
  { unfold mapi. rewrite mapi_from_map. fold (mapi assignment (map (column t) (keys d))).
    rewrite <- (append_nil_r (join _ _)).
    rewrite placeholders_assignments; [|now apply Forall_map|reflexivity].
    unfold keys. rewrite !length_map. apply List.app_nil_r. }
  split; [now apply sqlForPartialUpdate_assignments|].
  split; [reflexivity|].
  split; [unfold mapi, keys; now rewrite length_mapi_from, length_map|].
  split; [exact Hlen|].
  split.
  { intros i k v H. destruct (nth_error_keys d i k v H) as [Hk Hv].
    split; [exact Hv|].
    unfold mapi. now rewrite nth_error_mapi_from, Hk. }
  split; [exact Hp|].
  split.
  { cbn [Sql.values Sql.setCols]. rewrite Hp, Hlen, in_seq. lia. }
  unfold Job.idIdx, Company.handleVarIdx; simpl Sql.values. now rewrite Hlen.
Qed.

Lemma partial_update_values_follow_placeholders_witness :
  values_follow_placeholders
    [("firstName", JsString "Aliya")] [("firstName", "first_name")].
Proof.
  apply (proj1 partial_update_values_follow_placeholders
           [("firstName", JsString "Aliya")] [("firstName", "first_name")]).
  - discriminate.
  - repeat constructor.
Defined.

(** C7, as stated for every data mapping, fails on a key that carries a
    parameter: with the hostile key alone the text is "x"=$2, "y"=$1 for one
    value, and the index [$2], which [Job.update] takes next for the id,
    already occurs in it. *)
Lemma partial_update_next_index_taken :
  ~ values_follow_placeholders [(hostileKey, JsNumber 1)] [].
Proof.
  intros (p & cols & Hp & _ & _ & _ & _ & _ & Hfree & _).
  assert (E : Sql.sqlForPartialUpdate [(hostileKey, JsNumber 1)] (Some [])
              = inr {| Sql.setCols := dquote ++ "x" ++ dquote ++ "=$2, "
                                      ++ dquote ++ "y" ++ dquote ++ "=$1";
                       Sql.values := [JsNumber 1] |}) by reflexivity.
  pose proof (eq_trans (eq_sym E) Hp) as Ep. injection Ep as <-.
  apply Hfree. vm_compute. left. reflexivity.
Qed.

(** X6.  When the data of a partial update is not empty and no column it
    names (the table's non-empty entry for a key, else the text of an
    inherited member of that name, else the key) contains the
    sign of a parameter, the parameters that occur in the assignments are
    [$1 .. $n] in order, one for each of the [n] values returned. *)
Theorem partial_update_placeholders_are_1_to_n (d : JsObject JsValue) (t : JsObject string) :
  d <> [] ->
  Forall (fun k => no_dollar (column t k) = true) (keys d) ->
  exists p,
    Sql.sqlForPartialUpdate d (Some t) = inr p /\
    placeholders (Sql.setCols p) = seq 1 (List.length (Sql.values p)).
Proof.
  intros Hd Hk. eexists. split; [now apply sqlForPartialUpdate_columns|].
  simpl. rewrite <- (append_nil_r (join _ _)).
  rewrite placeholders_assignments;
    [|now apply no_dollar_columns, Forall_map|reflexivity].
  unfold keys, vals. rewrite !length_map. apply List.app_nil_r.
Qed.

Lemma partial_update_placeholders_are_1_to_n_witness :
  exists p,
    Sql.sqlForPartialUpdate [("firstName", JsString "Aliya"); ("age", JsNumber 32)]
      (Some [("firstName", "first_name"); ("age", "age")]) = inr p /\
    placeholders (Sql.setCols p) = seq 1 (List.length (Sql.values p)).
Proof.
  apply partial_update_placeholders_are_1_to_n; [discriminate|].
  repeat constructor.
Defined.

(** ** The statements of [update] *)

Section UpdateStatements.


Lemma company_querySql_fixed : fixed_around CompanyUpdate.querySql.
Proof.
  exists ("UPDATE companies " ++ newline ++ indent 22 ++ "SET "),
         (" " ++ newline ++ indent 22 ++ "WHERE handle = "),
         (" " ++ newline ++
          indent 22 ++ "RETURNING handle, " ++ newline ++
          indent 32 ++ "name, " ++ newline ++
          indent 32 ++ "description, " ++ newline ++
          indent 32 ++ "num_employees AS " ++ dquote ++ "numEmployees" ++ dquote ++ ", "
          ++ newline ++
          indent 32 ++ "logo_url AS " ++ dquote ++ "logoUrl" ++ dquote).
  repeat split.
Qed.

Variable querySql : string -> string -> string.
Hypothesis querySql_fixed : fixed_around querySql.

Lemma update_placeholders (cols : list string) :
  Forall (fun c => no_dollar c = true) cols ->
  placeholders (querySql (join ", " (mapi assignment cols))
                         ("$" ++ decimal (List.length cols + 1)))
  = seq 1 (List.length cols + 1).
Proof.
  intros Hc.
  destruct querySql_fixed as (pre & mid & post & H1 & H2 & H3 & H4 & H5 & ->).
  now apply placeholders_update.
Qed.

End UpdateStatements.






Lemma updatable_column k :
  In k CompanyUpdate.updatable ->
  In (column CompanyUpdate.jsToSql k) CompanyUpdate.columns /\
  no_dollar (column CompanyUpdate.jsToSql k) = true.
Proof.
  simpl. intros [<-|[<-|[<-|[<-|[]]]]]; split; simpl; auto.
Qed.

(** X8.  [Company.update] with empty data raises BadRequestError("No data").
    With data whose keys are among the fields its documentation lists (name,
    description, numEmployees, logoUrl), every assignment is on a column of
    the companies relation (name, description, num_employees, logo_url), the
    statement has the parameters [$1 .. $(n+1)] in order, and the parameter
    array is the values of the data followed by the handle. *)
Theorem company_update_parameters (handle : JsValue) (d : JsObject JsValue) :
  (d = [] -> CompanyUpdate.update handle d = inl (BadRequestError "No data")) /\
  (d <> [] -> Forall (fun k => In k CompanyUpdate.updatable) (keys d) ->
   exists q cols,
     CompanyUpdate.update handle d = inr q /\
     sql q = CompanyUpdate.querySql (join ", " (mapi assignment cols))
                                    ("$" ++ decimal (List.length d + 1)) /\
     List.length cols = List.length d /\
     Forall (fun c => In c CompanyUpdate.columns) cols /\
     values q = (vals d ++ [handle])%list /\
     placeholders (sql q) = seq 1 (List.length d + 1) /\
     map (resolve (values q)) (placeholders (sql q)) = map Some (vals d ++ [handle])%list).
Proof.
  split; [now intros ->|].
  intros Hd Hk. unfold CompanyUpdate.update.
  rewrite sqlForPartialUpdate_columns by assumption.
  cbn [bind ret Sql.values Sql.setCols].
  set (cols := map (column CompanyUpdate.jsToSql) (keys d)).
  assert (Hlen : List.length cols = List.length d)
    by (unfold cols, keys; now rewrite !length_map).
  assert (Hcols : Forall (fun c => In c CompanyUpdate.columns) cols /\
                  Forall (fun c => no_dollar c = true) cols).
  { unfold cols. split; apply Forall_map; rewrite Forall_forall in *;
      intros k Hin; now apply updatable_column, Hk. }
  destruct Hcols as [Hin Hnd].
  assert (Hidx : Company.handleVarIdx (vals d) = "$" ++ decimal (List.length d + 1)).
  { unfold Company.handleVarIdx, vals. now rewrite length_map. }
  assert (Hp : placeholders (CompanyUpdate.querySql (join ", " (mapi assignment cols))
                               (Company.handleVarIdx (vals d)))
               = seq 1 (List.length d + 1)).
  { pose proof (update_placeholders _ company_querySql_fixed cols Hnd) as H.
    rewrite Hidx. rewrite Hlen in H. exact H. }
  eexists. exists cols. split; [reflexivity|]. cbn [sql values].
  split; [now rewrite Hidx|]. split; [exact Hlen|]. split; [exact Hin|].
  split; [reflexivity|]. split; [exact Hp|].
  rewrite Hp, <- resolve_seq. f_equal. f_equal.
  unfold vals. now rewrite length_app, length_map.
Qed.

Lemma company_update_parameters_witness :
  exists q cols,
    CompanyUpdate.update (JsString "c1")
      [("numEmployees", JsNumber 10); ("name", JsString "New")] = inr q /\
    sql q = CompanyUpdate.querySql (join ", " (mapi assignment cols)) "$3" /\
    List.length cols = 2 /\
    Forall (fun c => In c CompanyUpdate.columns) cols /\
    values q = [JsNumber 10; JsString "New"; JsString "c1"] /\
    placeholders (sql q) = [1; 2; 3] /\
    map (resolve (values q)) (placeholders (sql q))
    = [Some (JsNumber 10); Some (JsString "New"); Some (JsString "c1")].
Proof.
  apply (proj2 (company_update_parameters (JsString "c1")
                  [("numEmployees", JsNumber 10); ("name", JsString "New")]));
    [discriminate|].
  apply Forall_cons; [simpl; tauto|].
  apply Forall_cons; [simpl; tauto | apply Forall_nil].
Defined.
